(** * The CHSH winning-probability estimator of [4.-CHSH_CERN.ipynb]

  A shallow embedding of the two functions of the notebook,
  [CHSH_circuit] and [winning_probability], and the properties the
  specification states about them; then the sweep over [a] of the Shor
  notebook and the labelling of the examples of the QSVM notebook.

  Conventions of the embedding:
  - Python integers are [Z]; the selector bits [x], [y] are integers
    because the code only ever compares them with [0];
  - a counts dictionary is a [gmap string Z];
  - a Python call that may raise returns a [result];
  - the quotient [total/(4*shots)] of two integers is a binary64 float:
    the value of the float nearest to the exact quotient, kept as a
    canonical rational [Qc], or [OverflowError] beyond the range of the
    floats;
  - the angles are only passed on to the rotation gates, so the circuit
    is generic in their type; the notebook's defaults are real numbers. *)

From Stdlib Require Import ZArith QArith Qcanon Qabs Reals Lra Lia.
From stdpp Require Import base gmap strings list fin_maps.

(** ** Python values that raise *)

Module Py.

Inductive exn : Type :=
| ZeroDivisionError
| KeyError (k : string)
| CircuitError
| QiskitError
| OverflowError.

Inductive result (A : Type) : Type :=
| Ok (a : A)
| Raise (e : exn).

Arguments Ok {A} a.
Arguments Raise {A} e.

#[global] Instance result_ret : MRet result := λ A a, Ok a.

#[global] Instance result_bind : MBind result := λ A B f m,
  match m with
  | Ok a => f a
  | Raise e => Raise e
  end.

Definition raises {A} (m : result A) : Prop := ∃ e, m = Raise e.

(** [for x in xs: body], threading the loop state [s]. *)
Fixpoint for_each {A S : Type} (body : S → A → result S) (s : S) (xs : list A)
  : result S :=
  match xs with
  | [] => Ok s
  | x :: xs' => s' ← body s x; for_each body s' xs'
  end.

(** [k in d] *)
Definition contains (k : string) (d : gmap string Z) : bool :=
  bool_decide (is_Some (d !! k)).

(** [d[k]] *)
Definition getitem (d : gmap string Z) (k : string) : result Z :=
  match d !! k with
  | Some v => Ok v
  | None => Raise (KeyError k)
  end.

(** *** The division of two integers

    [a / b] on two integers is the binary64 float nearest to the exact
    quotient, ties going to the even significand: the quotient is scaled
    by a power of two so that it shows 53 binary digits before the point
    (fewer for a subnormal result, whose exponent stops at -1074) and is
    rounded to an integer there. *)

(** [n / d] rounded to the nearest integer, ties to even, for [0 < d]. *)
Definition round_half_even (n d : Z) : Z :=
  let q := (n / d)%Z in
  match (2 * (n mod d) ?= d)%Z with
  | Lt => q
  | Gt => (q + 1)%Z
  | Eq => if Z.even q then q else (q + 1)%Z
  end.

(** [n * 2 ^ e] for a non-negative [e], and [n] otherwise: the quotient
    [a / b] scaled by [2 ^ (- e)] is
    [scale_up a (- e) / scale_up b e]. *)
Definition scale_up (n e : Z) : Z := (n * 2 ^ Z.max 0 e)%Z.

(** The exponent of the leading binary digit of [a / b], for [0 < a] and
    [0 < b]: [2 ^ msb <= a / b < 2 ^ (msb + 1)]. *)
Definition msb (a b : Z) : Z :=
  let d := (Z.log2 a - Z.log2 b)%Z in
  if decide (scale_up b d ≤ scale_up a (- d))%Z then d else (d - 1)%Z.

(** The exponent of the last binary digit a float keeps of [a / b]. *)
Definition float_exponent (a b : Z) : Z := Z.max (msb a b - 52) (-1074).

(** [a / b] on two integers: [ZeroDivisionError] for a zero divisor,
    [OverflowError] when the rounded quotient reaches [2 ^ 1024], the
    value of the nearest float otherwise. *)
Definition true_div (a b : Z) : result Qc :=
  if decide (b = 0%Z) then Raise ZeroDivisionError
  else if decide (a = 0%Z) then Ok (Q2Qc 0)
  else
    let e := float_exponent (Z.abs a) (Z.abs b) in
    let m := round_half_even (scale_up (Z.abs a) (- e)) (scale_up (Z.abs b) e) in
    if decide (scale_up (2 ^ 1024) (- e) ≤ scale_up m e)%Z
    then Raise OverflowError
    else Ok (Q2Qc (inject_Z (Z.sgn a * Z.sgn b * scale_up m e)
                   / inject_Z (scale_up 1 (- e)))).

(** The value a division returns, if it returns. *)
Definition result_value (r : result Qc) : option Q :=
  match r with
  | Ok p => Some (this p)
  | Raise _ => None
  end.

End Py.

Import Py.

(** ** The circuit primitives the notebook uses *)

Section Circuit.

Context {angle : Type}.

Inductive instruction : Type :=
| HGate (q : nat)
| CXGate (control target : nat)
| RYGate (theta : angle) (q : nat)
| Measure (q c : nat).

Record QuantumCircuit : Type := mkCircuit {
  num_qubits : nat;
  num_clbits : nat;
  data : list instruction
}.

(** [QuantumCircuit(n, m)] *)
Definition new_circuit (n m : nat) : QuantumCircuit :=
  {| num_qubits := n; num_clbits := m; data := [] |}.

Definition append (i : instruction) (circ : QuantumCircuit) : QuantumCircuit :=
  {| num_qubits := num_qubits circ;
     num_clbits := num_clbits circ;
     data := data circ ++ [i] |}.

Definition check_index (i bound : nat) : result unit :=
  if decide (i < bound) then Ok () else Raise CircuitError.

(** [circ.h(q)] *)
Definition h (q : nat) (circ : QuantumCircuit) : result QuantumCircuit :=
  _ ← check_index q (num_qubits circ);
  mret (append (HGate q) circ).

(** [circ.cx(c, t)] *)
Definition cx (c t : nat) (circ : QuantumCircuit) : result QuantumCircuit :=
  _ ← check_index c (num_qubits circ);
  _ ← check_index t (num_qubits circ);
  if decide (c = t) then Raise CircuitError
  else mret (append (CXGate c t) circ).

(** [circ.ry(theta, q)] *)
Definition ry (theta : angle) (q : nat) (circ : QuantumCircuit)
  : result QuantumCircuit :=
  _ ← check_index q (num_qubits circ);
  mret (append (RYGate theta q) circ).

Definition measure1 (circ : QuantumCircuit) (qc : nat * nat)
  : result QuantumCircuit :=
  _ ← check_index qc.1 (num_qubits circ);
  _ ← check_index qc.2 (num_clbits circ);
  mret (append (Measure qc.1 qc.2) circ).

(** [circ.measure(qs, cs)]: qubit [qs[i]] is measured into bit [cs[i]]. *)
Definition measure (qs cs : list nat) (circ : QuantumCircuit)
  : result QuantumCircuit :=
  if decide (length qs = length cs)
  then for_each measure1 circ (zip qs cs)
  else Raise CircuitError.

(** [range(n)] *)
Definition range (n : nat) : list nat := seq 0 n.

(** *** [CHSH_circuit] *)

Definition CHSH_circuit (x y : Z) (a0 a1 b0 b1 : angle) : result QuantumCircuit :=
  let circ := new_circuit 2 2 in
  (* First, we create a Bell pair *)
  circ ← h 0 circ;
  circ ← cx 0 1 circ;
  (* rotations for Alice and Bob depending on the bits they have received *)
  circ ← (if decide (x = 0%Z) then ry a0 0 circ else ry a1 0 circ);
  circ ← (if decide (y = 0%Z) then ry b0 1 circ else ry b1 1 circ);
  (* We measure *)
  circ ← measure (range 2) (range 2) circ;
  mret circ.

(** ** The execution backend

    The backend is an external collaborator: it receives the batch of
    circuits and the shot count and answers with one counts dictionary
    per circuit, in the order of the batch, or fails.  [get_counts]
    reads the counts of one experiment; an experiment is identified by
    the position of its circuit in the batch. *)

Definition Backend : Type :=
  list QuantumCircuit → Z → result (list (gmap string Z)).

Record Job : Type := mkJob { job_result : result (list (gmap string Z)) }.

(** [execute(circuits, backend=backend, shots=shots)] *)
Definition execute (circuits : list QuantumCircuit) (backend : Backend)
  (shots : Z) : Job :=
  {| job_result := backend circuits shots |}.

(** [result.get_counts(qc)], [i] being the position of [qc] in the batch. *)
Definition get_counts (res : list (gmap string Z)) (i : nat)
  : result (gmap string Z) :=
  match res !! i with
  | Some counts => Ok counts
  | None => Raise QiskitError
  end.

(** The circuits of a batch together with their positions. *)
Definition indexed (circuits : list QuantumCircuit)
  : list (nat * QuantumCircuit) :=
  zip (seq 0 (length circuits)) circuits.

(** [if(k in counts): total += counts[k]] *)
Definition add_count (counts : gmap string Z) (k : string) (total : Z)
  : result Z :=
  if contains k counts
  then v ← getitem counts k; mret (total + v)%Z
  else mret total.

(** The body of the loop over [circuits[0:3]]. *)
Definition equal_outputs (job : Job) (total : Z) (qc : nat * QuantumCircuit)
  : result Z :=
  res ← job_result job;
  counts ← get_counts res qc.1;
  total ← add_count counts "00" total;
  total ← add_count counts "11" total;
  mret total.

(** *** [winning_probability] *)

Definition winning_probability (backend : Backend) (shots : Z)
  (a0 a1 b0 b1 : angle) : result Qc :=
  let total := 0%Z in
  c00 ← CHSH_circuit 0 0 a0 a1 b0 b1;
  c01 ← CHSH_circuit 0 1 a0 a1 b0 b1;
  c10 ← CHSH_circuit 1 0 a0 a1 b0 b1;
  c11 ← CHSH_circuit 1 1 a0 a1 b0 b1;
  let circuits := [c00; c01; c10; c11] in
  let job := execute circuits backend shots in
  (* For the first three circuits, the outputs must be equal *)
  total ← for_each (equal_outputs job) total (take 3 (indexed circuits));
  (* For the fourth circuit, the outputs must be different *)
  res ← job_result job;
  counts ← get_counts res 3;
  total ← add_count counts "01" total;
  total ← add_count counts "10" total;
  true_div total (4 * shots).

End Circuit.

Arguments instruction : clear implicits.
Arguments QuantumCircuit : clear implicits.
Arguments Backend : clear implicits.

(** ** The notebook's default angles *)

Definition default_a0 : R := 0%R.
Definition default_a1 : R := (PI / 2)%R.
Definition default_b0 : R := (PI / 4)%R.
Definition default_b1 : R := (- PI / 4)%R.

(** ** What the specification says, in its own words *)

Section Specification.

Context {angle : Type}.

(** The rotation a party applies: the first angle when its bit is [0],
    the second otherwise. *)
Definition rotation_choice (bit : Z) (r0 r1 : angle) : angle :=
  if decide (bit = 0%Z) then r0 else r1.

(** The descriptor of the game for the challenge [(x, y)]: the entangling
    preparation, the two rotations, the measurement of both qubits. *)
Definition descriptor (x y : Z) (a0 a1 b0 b1 : angle) : QuantumCircuit angle :=
  {| num_qubits := 2;
     num_clbits := 2;
     data := [HGate 0; CXGate 0 1;
              RYGate (rotation_choice x a0 a1) 0;
              RYGate (rotation_choice y b0 b1) 1;
              Measure 0 0; Measure 1 1] |}.

(** The batch of the four challenges. *)
Definition batch (a0 a1 b0 b1 : angle) : list (QuantumCircuit angle) :=
  [descriptor 0 0 a0 a1 b0 b1; descriptor 0 1 a0 a1 b0 b1;
   descriptor 1 0 a0 a1 b0 b1; descriptor 1 1 a0 a1 b0 b1].

(** The rotations of a circuit, in order: angle and qubit. *)
Definition rotations (circ : QuantumCircuit angle) : list (angle * nat) :=
  omap (λ i, match i with RYGate theta q => Some (theta, q) | _ => None end)
       (data circ).

End Specification.

(** The count of an outcome, an absent outcome counting for zero. *)
Definition count_of (counts : gmap string Z) (k : string) : Z :=
  default 0%Z (counts !! k).

(** Wins of a descriptor whose win predicate is "outcome bits equal". *)
Definition wins_equal (counts : gmap string Z) : Z :=
  (count_of counts "00" + count_of counts "11")%Z.

(** Wins of a descriptor whose win predicate is "outcome bits differ". *)
Definition wins_differ (counts : gmap string Z) : Z :=
  (count_of counts "01" + count_of counts "10")%Z.

(** All winning counts of the four descriptors. *)
Definition win_sum (r00 r01 r10 r11 : gmap string Z) : Z :=
  (wins_equal r00 + wins_equal r01 + wins_equal r10 + wins_differ r11)%Z.

(** The number of shots a counts dictionary records. *)
Definition total_counts (counts : gmap string Z) : Z :=
  map_fold (λ _ v acc, (v + acc)%Z) 0%Z counts.

(** Counts as the data model has them: non-negative, and no more of them
    than shots were run. *)
Definition counts_within (shots : Z) (counts : gmap string Z) : Prop :=
  map_Forall (λ _ v, (0 ≤ v)%Z) counts ∧ (total_counts counts ≤ shots)%Z.

(** A backend stub that answers every request with a fixed response. *)
Definition stub {angle : Type} (response : list (gmap string Z)) : Backend angle :=
  λ _ _, Ok response.

(** *** Four independent requests

    The estimator as it would read with one request per descriptor
    instead of one batch: every circuit is executed alone, and its counts
    are those of the only experiment of its job. *)

Section Separate.

Context {angle : Type}.

Definition equal_outputs_alone (backend : Backend angle) (shots : Z)
  (total : Z) (qc : QuantumCircuit angle) : result Z :=
  let job := execute [qc] backend shots in
  res ← job_result job;
  counts ← get_counts res 0;
  total ← add_count counts "00" total;
  total ← add_count counts "11" total;
  mret total.

Definition winning_probability_separate (backend : Backend angle) (shots : Z)
  (a0 a1 b0 b1 : angle) : result Qc :=
  let total := 0%Z in
  c00 ← CHSH_circuit 0 0 a0 a1 b0 b1;
  c01 ← CHSH_circuit 0 1 a0 a1 b0 b1;
  c10 ← CHSH_circuit 1 0 a0 a1 b0 b1;
  c11 ← CHSH_circuit 1 1 a0 a1 b0 b1;
  let circuits := [c00; c01; c10; c11] in
  total ← for_each (equal_outputs_alone backend shots) total (take 3 circuits);
  let job := execute [c11] backend shots in
  res ← job_result job;
  counts ← get_counts res 0;
  total ← add_count counts "01" total;
  total ← add_count counts "10" total;
  true_div total (4 * shots).

(** The experiments of a request run one after the other, the first
    failure ending the request. *)
Fixpoint run_each (sample : QuantumCircuit angle → result (gmap string Z))
  (circuits : list (QuantumCircuit angle)) : result (list (gmap string Z)) :=
  match circuits with
  | [] => Ok []
  | qc :: circuits' =>
      counts ← sample qc;
      rest ← run_each sample circuits';
      mret (counts :: rest)
  end.

(** The batching contract: what the backend answers for a descriptor, its
    counts or its failure, is a function of the descriptor and of the shot
    count, whatever request the descriptor is sent in. *)
Definition batch_independent (backend : Backend angle)
  (sample : QuantumCircuit angle → Z → result (gmap string Z)) : Prop :=
  ∀ circuits shots,
    backend circuits shots = run_each (λ qc, sample qc shots) circuits.

(** The backend that draws the counts of a descriptor from [sample]. *)
Definition sampling_backend (sample : QuantumCircuit angle → Z → gmap string Z)
  : Backend angle :=
  λ circuits shots, Ok (map (λ qc, sample qc shots) circuits).

(** A deterministic backend outside that contract: the first circuit of a
    request always yields ["00"], every later one ["01"]. *)
Definition positional_backend : Backend angle :=
  λ circuits shots,
    Ok (imap (λ i _, if decide (i = 0) then {["00" := shots]} else {["01" := shots]})
             circuits).

End Separate.

(** *** The ideal distribution

    With the default angles every descriptor is won with probability
    [cos²(π/8)], shared evenly between its two winning outcomes. *)

Definition theoretical_wins (shots : Z) : R :=
  (IZR shots * (cos (PI / 8) * cos (PI / 8)))%R.

(** [n] is [r] rounded to the nearest integer. *)
Definition rounds_to (n : Z) (r : R) : Prop :=
  (Rabs (IZR n - r) <= 1 / 2)%R.

(** A response in which the winning outcomes of every descriptor number
    the rounded theoretical value. *)
Definition theoretical_response (shots : Z) (r00 r01 r10 r11 : gmap string Z)
  : Prop :=
  rounds_to (wins_equal r00) (theoretical_wins shots) ∧
  rounds_to (wins_equal r01) (theoretical_wins shots) ∧
  rounds_to (wins_equal r10) (theoretical_wins shots) ∧
  rounds_to (wins_differ r11) (theoretical_wins shots).

(** The rounded ideal counts of 8192 shots. *)
Definition ideal_equal : gmap string Z :=
  <["00" := 3496%Z]> (<["11" := 3496%Z]> (<["01" := 600%Z]> {["10" := 600%Z]})).

Definition ideal_differ : gmap string Z :=
  <["01" := 3496%Z]> (<["10" := 3496%Z]> (<["00" := 600%Z]> {["11" := 600%Z]})).

Definition ideal_response : list (gmap string Z) :=
  [ideal_equal; ideal_equal; ideal_equal; ideal_differ].

(** Responses the properties are tried on. *)
Definition zero_counts : gmap string Z :=
  <["00" := 0%Z]> (<["01" := 0%Z]> (<["10" := 0%Z]> {["11" := 0%Z]})).

Definition only_equal : gmap string Z :=
  <["00" := 4096%Z]> {["11" := 4096%Z]}.

Definition noisy_equal : gmap string Z :=
  <["00" := 3496%Z]> (<["11" := 3496%Z]> (<["0x3" := 1200%Z]> {["" := 7%Z]})).

Definition noisy_differ : gmap string Z :=
  <["01" := 3496%Z]> (<["10" := 3496%Z]> {["2" := (-5)%Z]}).

Definition only_differ : gmap string Z :=
  <["01" := 4096%Z]> {["10" := 4096%Z]}.

Definition overcount : gmap string Z := {["00" := 8%Z]}.


Definition no_shots : gmap string Z := <["00" := 0%Z]> {["11" := 0%Z]}.

Definition huge : gmap string Z := {["00" := (10 ^ 400)%Z]}.

(** The distance of a result to a rational target. *)
Definition distance (p : Qc) (target : Q) : Q := Qabs (p - target).

(** The quotient [a / b] is itself a float below [2 ^ 53]: an integer
    of at most 53 binary digits over a power of two that the floats
    reach. *)
Definition float_quotient (a b : Z) : Prop :=
  ∃ m k, (0 ≤ k ≤ 1074)%Z ∧ (Z.abs m < 2 ^ 53)%Z ∧ (a * 2 ^ k = m * b)%Z.

(** *** Further responses and backends *)

(** The counts that tell against a descriptor: the outcomes that are not
    wins.  For "outcome bits equal" these are the "01" and "10" counts,
    for "outcome bits differ" the "00" and "11" counts. *)
Definition losing_sum (r00 r01 r10 r11 : gmap string Z) : Z :=
  (wins_differ r00 + wins_differ r01 + wins_differ r10 + wins_equal r11)%Z.

(** Counts that hold nothing but the four outcomes of two bits. *)
Definition two_bit_outcomes (counts : gmap string Z) : Prop :=
  dom counts ⊆ ({["00"; "01"; "10"; "11"]} : gset string).

(** A backend whose execution fails. *)
Definition failing_backend {angle : Type} (e : exn) : Backend angle :=
  λ _ _, Raise e.

(** ** The sweep over [a] of the Shor notebook

    The cell tries every [a] in [range(2, N)]: when [a] shares a factor
    with [N] it prints that factor, otherwise it runs Shor's algorithm
    and prints the factors it reports.  The algorithm belongs to the SDK:
    its constructor and its [run] are parameters of the sweep.  The
    standard output is the list of the lines printed so far; it survives
    an exception. *)

Module ShorSweep.

Inductive line (factors : Type) : Type :=
| Header (N : Z)
| Blank
| Banner (a : Z)
| Factors (fs : factors)
| AFactor (N f : Z).

Arguments Header {factors} N.
Arguments Blank {factors}.
Arguments Banner {factors} a.
Arguments Factors {factors} fs.
Arguments AFactor {factors} N f.

(** [d[k]] on a dictionary of any values *)
Definition getitem {V : Type} (d : gmap string V) (k : string) : result V :=
  match d !! k with
  | Some v => Ok v
  | None => Raise (KeyError k)
  end.

(** [range(lo, hi)] *)
Definition range (lo hi : Z) : list Z := seqZ lo (hi - lo).

Section Sweep.

Context {algorithm factors : Type}.
Context (Shor : Z → Z → result algorithm).
Context (run : algorithm → result (gmap string factors)).

(** [shor = Shor(N,a); result = shor.run(quantum_instance); result["factors"]] *)
Definition shor_factors (N a : Z) : result factors :=
  shor ← Shor N a;
  result ← run shor;
  getitem result "factors".

(** The body of the loop, from the output so far to the output after it. *)
Definition body (N : Z) (out : list (line factors)) (a : Z)
  : list (line factors) * result unit :=
  let out := out ++ [Blank; Banner a; Blank] in
  let f := Z.gcd N a in
  if decide (f = 1%Z)
  then match shor_factors N a with
       | Ok fs => (out ++ [Factors fs], Ok ())
       | Raise e => (out, Raise e)
       end
  else (out ++ [AFactor N f], Ok ()).

Fixpoint loop (N : Z) (out : list (line factors)) (todo : list Z)
  : list (line factors) * result unit :=
  match todo with
  | [] => (out, Ok ())
  | a :: todo' =>
      match body N out a with
      | (out', Ok _) => loop N out' todo'
      | (out', Raise e) => (out', Raise e)
      end
  end.

(** The cell, for the number [N] it sets. *)
Definition sweep (N : Z) : list (line factors) * result unit :=
  loop N [Header N] (range 2 N).

(** What the sweep prints for one [a] when nothing fails, [fs a] being the
    factors Shor's algorithm reports for [a]. *)
Definition answer (fs : Z → factors) (N a : Z) : list (line factors) :=
  [Blank; Banner a; Blank;
   if decide (Z.gcd N a = 1%Z) then Factors (fs a) else AFactor N (Z.gcd N a)].

End Sweep.

End ShorSweep.

(** ** The labelled examples of the QSVM notebook *)

Module QSVM.

(** [[0]*n + [1]*n] *)
Definition labels (n : Z) : list Z :=
  replicate (Z.to_nat n) 0%Z ++ replicate (Z.to_nat n) 1%Z.

(** [np.append(A, B, axis=0)] on two arrays of rows of one width *)
Definition append_rows {row : Type} (A B : list row) : list row := A ++ B.

(** The examples as the classifier receives them: row [i] with label [i]. *)
Definition labelled {row : Type} (A B : list row) (n : Z) : list (row * Z) :=
  zip (append_rows A B) (labels n).

End QSVM.

(** *** Stand-ins for Shor's algorithm, to try the sweep on *)

(** An algorithm that always reports the factors 3 and 5. *)
Definition steady_Shor : Z → Z → result unit := λ _ _, Ok ().

Definition steady_run : unit → result (gmap string (list Z)) :=
  λ _, Ok {["factors" := [3%Z; 5%Z]]}.

(** An algorithm whose constructor refuses an [a] that shares a factor
    with [N]. *)
Definition strict_Shor : Z → Z → result unit :=
  λ N a, if decide (Z.gcd N a = 1%Z) then Ok () else Raise CircuitError.

(** An algorithm that breaks down at [a = 4]. *)
Definition flaky_Shor : Z → Z → result unit :=
  λ _ a, if decide (a = 4%Z) then Raise QiskitError else Ok ().

(** ** The division of two integers *)

Section Division.

Local Open Scope Z_scope.

Lemma scale_up_nonneg n e : 0 ≤ e → scale_up n e = n * 2 ^ e.
Proof. intros. unfold scale_up. by rewrite Z.max_r. Qed.

Lemma scale_up_nonpos n e : e ≤ 0 → scale_up n e = n.
Proof. intros. unfold scale_up. rewrite Z.max_l by done. cbn. lia. Qed.

Lemma round_half_even_nonneg n d : 0 ≤ n → 0 < d → 0 ≤ round_half_even n d.
Proof.
  intros Hn Hd. unfold round_half_even.
  assert (0 ≤ n / d) by (apply Z.div_pos; lia).
  destruct (2 * (n mod d) ?= d); [destruct (Z.even _) | |]; lia.
Qed.

Lemma round_half_even_le n d K : 0 < d → n ≤ K * d → round_half_even n d ≤ K.
Proof.
  intros Hd Hn. unfold round_half_even.
  pose proof (Z.div_mod n d ltac:(lia)) as Hdm.
  pose proof (Z.mod_pos_bound n d Hd) as Hr.
  assert (n / d ≤ K) as Hq by (apply Z.div_le_upper_bound; lia).
  destruct (Z.eq_dec (n / d) K) as [Heq|Hne].
  - assert (n mod d = 0) as Hz by nia.
    destruct (Z.compare_spec (2 * (n mod d)) d); [destruct (Z.even _) | |]; lia.
  - destruct (2 * (n mod d) ?= d); [destruct (Z.even _) | |]; lia.
Qed.

Lemma round_half_even_exact k d : 0 < d → round_half_even (k * d) d = k.
Proof.
  intros Hd. unfold round_half_even.
  rewrite Z.mod_mul, Z.div_mul by lia.
  destruct (Z.compare_spec (2 * 0) d); [|done|]; lia.
Qed.


(** [2 ^ msb <= a / b] *)
Lemma msb_lower a b :
  0 < a → 0 < b → scale_up b (msb a b) ≤ scale_up a (- msb a b).
Proof.
  intros Ha Hb. unfold msb.
  destruct (decide _) as [Hle|Hgt]; [done|].
  pose proof (Z.log2_spec a Ha) as [Hla _].
  pose proof (Z.log2_spec b Hb) as [_ Hlb].
  pose proof (Z.log2_nonneg a). pose proof (Z.log2_nonneg b).
  set (la := Z.log2 a) in *. set (lb := Z.log2 b) in *.
  destruct (Z.le_gt_cases 1 (la - lb)) as [Hd|Hd].
  - rewrite scale_up_nonneg, scale_up_nonpos by lia.
    assert (2 ^ Z.succ lb * 2 ^ (la - lb - 1) = 2 ^ la) as Hpow.
    { rewrite <- Z.pow_add_r by lia. f_equal. lia. }
    assert (0 < 2 ^ (la - lb - 1)) by (apply Z.pow_pos_nonneg; lia).
    nia.
  - rewrite scale_up_nonpos, scale_up_nonneg by lia.
    assert (2 ^ la * 2 ^ (- (la - lb - 1)) = 2 ^ Z.succ lb) as Hpow.
    { rewrite <- Z.pow_add_r by lia. f_equal. lia. }
    assert (0 < 2 ^ (- (la - lb - 1))) by (apply Z.pow_pos_nonneg; lia).
    nia.
Qed.


Lemma msb_le_log2_diff a b : msb a b ≤ Z.log2 a - Z.log2 b.
Proof. unfold msb. destruct (decide _); lia. Qed.

Lemma inject_Z_nonzero (x : Z) : x ≠ 0 → (¬ inject_Z x == 0)%Q.
Proof. intros Hx. change 0%Q with (inject_Z 0). by rewrite inject_Z_injective. Qed.

Lemma Qdiv_inject_Z_eq (x y z w : Z) :
  y ≠ 0 → w ≠ 0 → x * w = z * y →
  (inject_Z x / inject_Z y == inject_Z z / inject_Z w)%Q.
Proof.
  intros Hy Hw Heq.
  pose proof (inject_Z_nonzero y Hy) as Hy'.
  pose proof (inject_Z_nonzero w Hw) as Hw'.
  apply (Qmult_inj_r _ _ (inject_Z y * inject_Z w)).
  { intros H0. apply Qmult_integral in H0. tauto. }
  transitivity (inject_Z x * inject_Z w)%Q; [field; done|].
  transitivity (inject_Z z * inject_Z y)%Q; [|field; done].
  by rewrite <- !inject_Z_mult, Heq.
Qed.


Lemma true_div_by_zero (a : Z) : true_div a 0 = Raise ZeroDivisionError.
Proof. reflexivity. Qed.

Lemma true_div_of_zero (b : Z) : b ≠ 0 → true_div 0 b = Ok 0%Qc.
Proof. intros Hb. unfold true_div. by destruct (decide (b = 0)). Qed.

(** The division fails in two ways only. *)
Lemma true_div_raises (a b : Z) (e : exn) :
  true_div a b = Raise e →
  (b = 0 ∧ e = ZeroDivisionError) ∨ (b ≠ 0 ∧ e = OverflowError).
Proof.
  unfold true_div. destruct (decide (b = 0)) as [Hb|Hb].
  - intros [= <-]. by left.
  - destruct (decide (a = 0)); [done|].
    destruct (decide _); [|done]. intros [= <-]. by right.
Qed.

Lemma true_div_unit_interval (a b : Z) :
  (0 ≤ a ≤ b)%Z → (0 < b)%Z →
  ∃ p : Qc, true_div a b = Ok p ∧ (0 ≤ p)%Qc ∧ (p ≤ 1)%Qc.
Proof.
  intros [Ha Hab] Hb. unfold true_div.
  destruct (decide (b = 0)) as [|_]; [lia|].
  destruct (decide (a = 0)) as [|Ha0]; [by eexists|].
  rewrite !Z.abs_eq by lia.
  pose proof (msb_le_log2_diff a b) as Hmsb.
  pose proof (Z.log2_le_mono a b Hab) as Hlog.
  assert (-1074 ≤ float_exponent a b ≤ - 52) as He.
  { unfold float_exponent. lia. }
  set (e := float_exponent a b) in *.
  rewrite !(scale_up_nonpos _ e), !(scale_up_nonneg _ (- e)) by lia.
  assert (0 < 2 ^ (- e)) as Hpow by (apply Z.pow_pos_nonneg; lia).
  set (m := round_half_even (a * 2 ^ (- e)) b).
  assert (0 ≤ m) as Hm0 by (apply round_half_even_nonneg; nia).
  assert (m ≤ 2 ^ (- e)) as Hm1 by (apply round_half_even_le; nia).
  destruct (decide _) as [Hover|_]; [nia|].
  eexists. split; [done|].
  replace (Z.sgn a * Z.sgn b * m) with m
    by (rewrite !Z.sgn_pos by lia; lia).
  rewrite Z.mul_1_l.
  assert (inject_Z 0 < inject_Z (2 ^ (- e)))%Q as Hpos by (by rewrite <- Zlt_Qlt).
  unfold Qcle. cbn [this Q2Qc]. rewrite !Qred_correct. split.
  - apply Qle_shift_div_l; [done|]. rewrite Qmult_0_l.
    change 0%Q with (inject_Z 0). by rewrite <- Zle_Qle.
  - apply Qle_shift_div_r; [done|]. rewrite Qmult_1_l. by rewrite <- Zle_Qle.
Qed.

(** A quotient that is a float is returned as it is. *)
Lemma true_div_exact (a b : Z) :
  0 < a → 0 < b → float_quotient a b →
  true_div a b = Ok (Q2Qc (inject_Z a / inject_Z b)).
Proof.
  intros Ha Hb (m & k & Hk & Hm & Heq). unfold true_div.
  destruct (decide (b = 0)) as [|_]; [lia|].
  destruct (decide (a = 0)) as [|_]; [lia|].
  rewrite !Z.abs_eq by lia.
  pose proof (msb_lower a b Ha Hb) as Hlow.
  assert (0 < 2 ^ k) as Hpk by (apply Z.pow_pos_nonneg; lia).
  assert (0 < m) as Hm0 by nia.
  assert (msb a b + k ≤ 52) as Hmsb.
  { destruct (Z.le_gt_cases 0 (msb a b)) as [Hs|Hs].
    - rewrite scale_up_nonneg, scale_up_nonpos in Hlow by lia.
      assert (0 < 2 ^ msb a b) by (apply Z.pow_pos_nonneg; lia).
      assert (2 ^ (msb a b + k) < 2 ^ 53) as Hlt.
      { rewrite Z.pow_add_r by lia. nia. }
      apply Z.pow_lt_mono_r_iff in Hlt; lia.
    - rewrite scale_up_nonpos, scale_up_nonneg in Hlow by lia.
      assert (0 < 2 ^ (- msb a b)) by (apply Z.pow_pos_nonneg; lia).
      assert (2 ^ k < 2 ^ (53 - msb a b)) as Hlt.
      { replace (53 - msb a b) with (53 + - msb a b) by lia.
        rewrite Z.pow_add_r by lia. nia. }
      apply Z.pow_lt_mono_r_iff in Hlt; lia. }
  assert (-1074 ≤ float_exponent a b ≤ - k) as He.
  { unfold float_exponent. lia. }
  set (e := float_exponent a b) in *.
  rewrite !(scale_up_nonpos _ e), !(scale_up_nonneg _ (- e)) by lia.
  assert (2 ^ (- e) = 2 ^ k * 2 ^ (- e - k)) as Hsplit.
  { rewrite <- Z.pow_add_r by lia. f_equal. lia. }
  assert (0 < 2 ^ (- e - k)) as Hp2 by (apply Z.pow_pos_nonneg; lia).
  assert (a * 2 ^ (- e) = (m * 2 ^ (- e - k)) * b) as -> by (rewrite Hsplit; nia).
  rewrite round_half_even_exact by done.
  destruct (decide _) as [Hover|_].
  { exfalso. assert (2 ^ 53 ≤ 2 ^ 1024) by (apply Z.pow_le_mono_r; lia).
    rewrite Hsplit in Hover. nia. }
  f_equal. apply Q2Qc_eq_iff.
  rewrite !Z.sgn_pos, !Z.mul_1_l by lia.
  apply Qdiv_inject_Z_eq; [lia|lia|]. rewrite Hsplit. nia.
Qed.


(** A division is settled by computing its value. *)
Lemma result_value_Ok (r : result Qc) (q : Q) :
  match result_value r with
  | Some q' => (q' == q)%Q
  | None => False
  end →
  r = Ok (Q2Qc q).
Proof.
  destruct r as [p|e]; cbn; [|done]. intros Hq. f_equal.
  apply Qc_is_canon. cbn [this Q2Qc]. by rewrite Qred_correct.
Qed.

End Division.

(** ** The code against the specification's definitions *)

Section Estimator.

Context {angle : Type}.
Implicit Types (backend : Backend angle) (counts : gmap string Z).
Implicit Types (x y shots total : Z).

Lemma CHSH_circuit_descriptor x y (a0 a1 b0 b1 : angle) :
  CHSH_circuit x y a0 a1 b0 b1 = Ok (descriptor x y a0 a1 b0 b1).
Proof.
  unfold CHSH_circuit, descriptor, rotation_choice.
  destruct (decide (x = 0%Z)), (decide (y = 0%Z)); reflexivity.
Qed.

Lemma add_count_count_of counts k total :
  add_count counts k total = Ok (total + count_of counts k)%Z.
Proof.
  unfold add_count, contains, getitem, count_of.
  destruct (counts !! k) as [v|] eqn:E.
  - rewrite bool_decide_eq_true_2 by eauto. reflexivity.
  - rewrite bool_decide_eq_false_2 by (intros [? ?]; discriminate).
    cbn. f_equal. lia.
Qed.

Lemma equal_outputs_response (job : Job) (res : list (gmap string Z))
  (i : nat) (qc : QuantumCircuit angle) counts total :
  job_result job = Ok res →
  res !! i = Some counts →
  equal_outputs job total (i, qc) = Ok (total + wins_equal counts)%Z.
Proof.
  intros Hres Hi. unfold equal_outputs, get_counts, wins_equal.
  rewrite Hres. cbn [mbind result_bind fst]. rewrite Hi.
  cbn [mbind result_bind]. rewrite add_count_count_of. cbn [mbind result_bind].
  rewrite add_count_count_of. cbn. f_equal. lia.
Qed.

Lemma winning_probability_response backend shots (a0 a1 b0 b1 : angle)
  (r00 r01 r10 r11 : gmap string Z) :
  backend (batch a0 a1 b0 b1) shots = Ok [r00; r01; r10; r11] →
  winning_probability backend shots a0 a1 b0 b1
  = true_div (win_sum r00 r01 r10 r11) (4 * shots).
Proof.
  intros Hresp. unfold winning_probability.
  rewrite !CHSH_circuit_descriptor. cbn [mbind result_bind].
  unfold batch in Hresp.
  set (job := execute _ backend shots).
  assert (Hjob : job_result job = Ok [r00; r01; r10; r11]) by exact Hresp.
  unfold indexed. cbn [length seq zip zip_with take for_each].
  rewrite (equal_outputs_response job _ 0 _ r00) by done.
  cbn [mbind result_bind].
  rewrite (equal_outputs_response job _ 1 _ r01) by done.
  cbn [mbind result_bind].
  rewrite (equal_outputs_response job _ 2 _ r10) by done.
  cbn [mbind result_bind]. rewrite Hjob.
  cbn [mbind result_bind get_counts lookup list_lookup].
  rewrite add_count_count_of. cbn [mbind result_bind].
  rewrite add_count_count_of. cbn [mbind result_bind].
  unfold win_sum, wins_differ. f_equal. lia.
Qed.

(** ** The circuit descriptor *)

(** C2: for [x], [y] in {0,1} and any angles, [CHSH_circuit] returns the
    two-qubit circuit made of the entangling preparation (Hadamard on
    qubit 0, then CNOT from 0 to 1), the rotation of qubit 0 by [a0] if
    [x = 0] and by [a1] otherwise, the rotation of qubit 1 by [b0] if
    [y = 0] and by [b1] otherwise, and the measurement of both qubits. *)
Theorem CHSH_circuit_layout x y (a0 a1 b0 b1 : angle) :
  (x = 0 ∨ x = 1)%Z → (y = 0 ∨ y = 1)%Z →
  CHSH_circuit x y a0 a1 b0 b1
  = Ok {| num_qubits := 2;
          num_clbits := 2;
          data := [HGate 0; CXGate 0 1;
                   RYGate (if decide (x = 0%Z) then a0 else a1) 0;
                   RYGate (if decide (y = 0%Z) then b0 else b1) 1;
                   Measure 0 0; Measure 1 1] |}.
Proof. intros _ _. apply CHSH_circuit_descriptor. Qed.

Lemma rotations_descriptor x y (a0 a1 b0 b1 : angle) :
  rotations (descriptor x y a0 a1 b0 b1)
  = [(rotation_choice x a0 a1, 0); (rotation_choice y b0 b1, 1)].
Proof. reflexivity. Qed.

(** C4, as the code has it: a selector outside {0,1} is not rejected.
    [CHSH_circuit] returns a descriptor for it, in which every value other
    than [0] selects the second angle of the party, as [1] does. *)
Theorem CHSH_circuit_accepts_any_selector x y (a0 a1 b0 b1 : angle) :
  (x ≠ 0 ∧ x ≠ 1)%Z ∨ (y ≠ 0 ∧ y ≠ 1)%Z →
  ¬ raises (CHSH_circuit x y a0 a1 b0 b1) ∧
  CHSH_circuit x y a0 a1 b0 b1
  = CHSH_circuit (if decide (x = 0%Z) then 0 else 1)
                 (if decide (y = 0%Z) then 0 else 1) a0 a1 b0 b1.
Proof.
  intros _. rewrite !CHSH_circuit_descriptor. split.
  - intros [e He]. discriminate.
  - unfold descriptor, rotation_choice.
    by destruct (decide (x = 0%Z)), (decide (y = 0%Z)).
Qed.

(** ** The estimate *)


Lemma count_of_all_zero counts k :
  map_Forall (λ _ v, v = 0%Z) counts → count_of counts k = 0%Z.
Proof.
  intros Hall. unfold count_of.
  destruct (counts !! k) as [v|] eqn:E; [|done].
  cbn. by apply (Hall k).
Qed.

(** C6: when every count the backend returns is zero, for all four
    descriptors, and the shot count is positive, the estimator returns
    exactly zero. *)
Theorem winning_probability_all_zero backend shots (a0 a1 b0 b1 : angle)
  (r00 r01 r10 r11 : gmap string Z) :
  (0 < shots)%Z →
  backend (batch a0 a1 b0 b1) shots = Ok [r00; r01; r10; r11] →
  map_Forall (λ _ v, v = 0%Z) r00 → map_Forall (λ _ v, v = 0%Z) r01 →
  map_Forall (λ _ v, v = 0%Z) r10 → map_Forall (λ _ v, v = 0%Z) r11 →
  winning_probability backend shots a0 a1 b0 b1 = Ok 0%Qc.
Proof.
  intros Hshots Hresp H00 H01 H10 H11.
  rewrite (winning_probability_response _ _ _ _ _ _ _ _ _ _ Hresp).
  unfold win_sum, wins_equal, wins_differ.
  rewrite !count_of_all_zero by done. cbn [Z.add].
  apply true_div_of_zero. lia.
Qed.

(** C10: the estimate is a function of the eight winning entries alone.
    Two responses that agree on the "00" and "11" entries of the first
    three descriptors and on the "01" and "10" entries of the fourth give
    the same outcome, whatever else they hold. *)
Theorem winning_probability_only_winning_keys
  (backend backend' : Backend angle) shots (a0 a1 b0 b1 : angle)
  (r00 r01 r10 r11 s00 s01 s10 s11 : gmap string Z) :
  backend (batch a0 a1 b0 b1) shots = Ok [r00; r01; r10; r11] →
  backend' (batch a0 a1 b0 b1) shots = Ok [s00; s01; s10; s11] →
  r00 !! "00" = s00 !! "00" → r00 !! "11" = s00 !! "11" →
  r01 !! "00" = s01 !! "00" → r01 !! "11" = s01 !! "11" →
  r10 !! "00" = s10 !! "00" → r10 !! "11" = s10 !! "11" →
  r11 !! "01" = s11 !! "01" → r11 !! "10" = s11 !! "10" →
  winning_probability backend shots a0 a1 b0 b1
  = winning_probability backend' shots a0 a1 b0 b1.
Proof.
  intros Hr Hs E1 E2 E3 E4 E5 E6 E7 E8.
  rewrite (winning_probability_response _ _ _ _ _ _ _ _ _ _ Hr).
  rewrite (winning_probability_response _ _ _ _ _ _ _ _ _ _ Hs).
  unfold win_sum, wins_equal, wins_differ, count_of.
  by rewrite E1, E2, E3, E4, E5, E6, E7, E8.
Qed.

(** *** Counts of a run of [shots] shots *)

Lemma total_counts_delete counts k :
  total_counts counts = (count_of counts k + total_counts (delete k counts))%Z.
Proof.
  unfold total_counts, count_of.
  destruct (counts !! k) as [v|] eqn:E.
  - rewrite (map_fold_delete_L _ _ k v counts); [done| |done].
    intros. lia.
  - rewrite delete_id by done. cbn. lia.
Qed.

Lemma total_counts_nonneg counts :
  map_Forall (λ _ v, (0 ≤ v)%Z) counts → (0 ≤ total_counts counts)%Z.
Proof.
  induction counts as [|k v counts Hk _ IH] using map_first_key_ind.
  - intros _. unfold total_counts. by rewrite map_fold_empty.
  - intros Hall. apply map_Forall_insert in Hall as [Hv Hall]; [|done].
    rewrite (total_counts_delete _ k). unfold count_of.
    rewrite lookup_insert_eq, delete_insert_id by done. cbn.
    specialize (IH Hall). lia.
Qed.

Lemma count_of_nonneg counts k :
  map_Forall (λ _ v, (0 ≤ v)%Z) counts → (0 ≤ count_of counts k)%Z.
Proof.
  intros Hall. unfold count_of.
  destruct (counts !! k) as [v|] eqn:E; [|done].
  cbn. by apply (Hall k).
Qed.

Lemma two_counts_within shots counts k1 k2 :
  k1 ≠ k2 → counts_within shots counts →
  (0 ≤ count_of counts k1 + count_of counts k2 ≤ shots)%Z.
Proof.
  intros Hne [Hall Htotal].
  pose proof (count_of_nonneg counts k1 Hall).
  pose proof (count_of_nonneg counts k2 Hall).
  rewrite (total_counts_delete counts k1) in Htotal.
  rewrite (total_counts_delete (delete k1 counts) k2) in Htotal.
  assert (count_of (delete k1 counts) k2 = count_of counts k2) as Hk2.
  { unfold count_of. by rewrite lookup_delete_ne. }
  assert (0 ≤ total_counts (delete k2 (delete k1 counts)))%Z.
  { apply total_counts_nonneg. by do 2 apply map_Forall_delete. }
  lia.
Qed.

(** C3, as the code has it: for a positive shot count and a response
    whose counts are non-negative and number at most [shots] for every
    descriptor, the estimator returns a value in the interval [0, 1]. *)
Theorem winning_probability_unit_interval backend shots (a0 a1 b0 b1 : angle)
  (r00 r01 r10 r11 : gmap string Z) :
  (0 < shots)%Z →
  backend (batch a0 a1 b0 b1) shots = Ok [r00; r01; r10; r11] →
  counts_within shots r00 → counts_within shots r01 →
  counts_within shots r10 → counts_within shots r11 →
  ∃ p : Qc, winning_probability backend shots a0 a1 b0 b1 = Ok p ∧
    (0 ≤ p)%Qc ∧ (p ≤ 1)%Qc.
Proof.
  intros Hshots Hresp H00 H01 H10 H11.
  rewrite (winning_probability_response _ _ _ _ _ _ _ _ _ _ Hresp).
  apply true_div_unit_interval; [|lia].
  unfold win_sum, wins_equal, wins_differ.
  pose proof (two_counts_within shots r00 "00" "11" ltac:(done) H00).
  pose proof (two_counts_within shots r01 "00" "11" ltac:(done) H01).
  pose proof (two_counts_within shots r10 "00" "11" ltac:(done) H10).
  pose proof (two_counts_within shots r11 "01" "10" ltac:(done) H11).
  lia.
Qed.

Lemma win_sum_within shots (r00 r01 r10 r11 : gmap string Z) :
  counts_within shots r00 → counts_within shots r01 →
  counts_within shots r10 → counts_within shots r11 →
  (0 ≤ win_sum r00 r01 r10 r11 ≤ 4 * shots)%Z.
Proof.
  intros H00 H01 H10 H11. unfold win_sum, wins_equal, wins_differ.
  pose proof (two_counts_within shots r00 "00" "11" ltac:(done) H00).
  pose proof (two_counts_within shots r01 "00" "11" ltac:(done) H01).
  pose proof (two_counts_within shots r10 "00" "11" ltac:(done) H10).
  pose proof (two_counts_within shots r11 "01" "10" ltac:(done) H11).
  lia.
Qed.

(** C5, as the code has it: an absent outcome key is not an error and
    adds nothing to the total, so the estimator never raises [KeyError];
    when the counts of the (1,1) descriptor have neither "01" nor "10",
    that descriptor contributes no win and the outcome is that of the
    division of the wins of the other three by [4 * shots]; the call
    returns a value when moreover the shot count is positive and the
    counts are non-negative and number at most [shots]. *)
Theorem absent_key_counts_zero backend shots (a0 a1 b0 b1 : angle)
  (r00 r01 r10 r11 : gmap string Z) :
  backend (batch a0 a1 b0 b1) shots = Ok [r00; r01; r10; r11] →
  (∀ counts k total,
     counts !! k = None →
     count_of counts k = 0%Z ∧ add_count counts k total = Ok total) ∧
  (∀ k, winning_probability backend shots a0 a1 b0 b1 ≠ Raise (KeyError k)) ∧
  (r11 !! "01" = None → r11 !! "10" = None →
   wins_differ r11 = 0%Z ∧
   winning_probability backend shots a0 a1 b0 b1
   = true_div (wins_equal r00 + wins_equal r01 + wins_equal r10) (4 * shots) ∧
   ((0 < shots)%Z →
    counts_within shots r00 → counts_within shots r01 →
    counts_within shots r10 → counts_within shots r11 →
    ∃ p, winning_probability backend shots a0 a1 b0 b1 = Ok p)).
Proof.
  intros Hresp.
  rewrite (winning_probability_response _ _ _ _ _ _ _ _ _ _ Hresp).
  split; [|split].
  - intros counts k total Hk. rewrite add_count_count_of.
    unfold count_of. rewrite Hk. cbn. split; [done|]. f_equal. lia.
  - intros k Hk. by apply true_div_raises in Hk as [[_ ?]|[_ ?]].
  - intros H01 H10.
    assert (Hzero : wins_differ r11 = 0%Z).
    { unfold wins_differ, count_of. by rewrite H01, H10. }
    split; [done|]. split.
    + unfold win_sum. rewrite Hzero. by rewrite Z.add_0_r.
    + intros Hshots H00 H01' H10' H11.
      pose proof (win_sum_within shots r00 r01 r10 r11 H00 H01' H10' H11).
      destruct (true_div_unit_interval (win_sum r00 r01 r10 r11) (4 * shots))
        as (p & Hp & _); [done|lia|by exists p].
Qed.

End Estimator.

(** ** The ideal distribution at 8192 shots *)

Lemma inv_sqrt2_bounds : (70710 / 100000 < 1 / sqrt 2 < 70711 / 100000)%R.
Proof.
  assert (Hs : (sqrt 2 * sqrt 2 = 2)%R) by (apply sqrt_sqrt; lra).
  assert (Hpos : (0 < sqrt 2)%R) by (apply sqrt_lt_R0; lra).
  set (s := sqrt 2) in *.
  assert (Hu : (1 / s = s / 2)%R) by (field_simplify_eq; lra).
  rewrite Hu. split; nra.
Qed.

Lemma cos_sqr_PI8 : (cos (PI / 8) * cos (PI / 8) = (1 + 1 / sqrt 2) / 2)%R.
Proof.
  pose proof (cos_2a_cos (PI / 8)) as H.
  replace (2 * (PI / 8))%R with (PI / 4)%R in H by lra.
  rewrite cos_PI4 in H. lra.
Qed.

Lemma theoretical_wins_8192 :
  (69922 / 10 < theoretical_wins 8192 < 69924 / 10)%R.
Proof.
  unfold theoretical_wins. rewrite cos_sqr_PI8.
  pose proof inv_sqrt2_bounds. lra.
Qed.

(** 6992 is the one integer that [8192 * cos²(π/8)] rounds to. *)
Lemma rounds_to_theoretical_8192 (n : Z) :
  rounds_to n (theoretical_wins 8192) ↔ n = 6992%Z.
Proof.
  unfold rounds_to. pose proof theoretical_wins_8192 as [Hlo Hhi]. split.
  - intros Hn.
    assert (IZR 6991 < IZR n < IZR 6993)%R as [H1 H2].
    { unfold Rabs in Hn. destruct (Rcase_abs _) in Hn; lra. }
    apply lt_IZR in H1, H2. lia.
  - intros ->. apply Rabs_le. lra.
Qed.

Lemma ideal_response_theoretical :
  theoretical_response 8192%Z ideal_equal ideal_equal ideal_equal ideal_differ.
Proof. repeat split; by apply rounds_to_theoretical_8192. Qed.

(** The estimate of the rounded counts also misses [cos²(π/8)] itself by
    more than 3e-5: rounding the counts costs more than 1e-9. *)
Lemma ideal_estimate_below_cos_sqr :
  (3 / 100000 < cos (PI / 8) * cos (PI / 8) - 27968 / 32768)%R.
Proof. rewrite cos_sqr_PI8. pose proof inv_sqrt2_bounds. lra. Qed.

Lemma distance_ideal_target :
  (distance (Q2Qc (27968 # 32768)) (8536 # 10000) == 27 # 320000)%Q.
Proof. by vm_compute. Qed.

(** C9, as the numbers have it: at 8192 shots, a response whose winning
    counts are the rounded theoretical value for every descriptor makes
    the estimator return exactly 27968/32768 = 0.853515625, which is
    within 1e-4 of 0.8536. *)
Theorem winning_probability_ideal {angle : Type} (backend : Backend angle)
  (a0 a1 b0 b1 : angle) (r00 r01 r10 r11 : gmap string Z) :
  backend (batch a0 a1 b0 b1) 8192%Z = Ok [r00; r01; r10; r11] →
  theoretical_response 8192%Z r00 r01 r10 r11 →
  ∃ p : Qc, winning_probability backend 8192%Z a0 a1 b0 b1 = Ok p ∧
    p = Q2Qc (27968 # 32768) ∧
    (distance p (8536 # 10000) <= 1 # 10000)%Q.
Proof.
  intros Hresp (H00 & H01 & H10 & H11).
  apply rounds_to_theoretical_8192 in H00, H01, H10, H11.
  exists (Q2Qc (27968 # 32768)). split; [|split; [done|]].
  - rewrite (winning_probability_response _ _ _ _ _ _ _ _ _ _ Hresp).
    unfold win_sum. rewrite H00, H01, H10, H11.
    apply result_value_Ok. vm_compute. reflexivity.
  - rewrite distance_ideal_target. by vm_compute.
Qed.

(** ** The properties on the notebook's default angles *)

Lemma CHSH_circuit_layout_default :
  CHSH_circuit 0 1 default_a0 default_a1 default_b0 default_b1
  = Ok {| num_qubits := 2;
          num_clbits := 2;
          data := [HGate 0; CXGate 0 1; RYGate default_a0 0;
                   RYGate default_b1 1; Measure 0 0; Measure 1 1] |}.
Proof. apply (CHSH_circuit_layout 0 1); [by left | by right]. Defined.

Lemma CHSH_circuit_selector_two :
  ¬ raises (CHSH_circuit 2 0 default_a0 default_a1 default_b0 default_b1) ∧
  CHSH_circuit 2 0 default_a0 default_a1 default_b0 default_b1
  = CHSH_circuit 1 0 default_a0 default_a1 default_b0 default_b1.
Proof. apply (CHSH_circuit_accepts_any_selector 2 0). left. lia. Defined.

(** C4 fails on the code: for the selector [x = 2] the circuit is built,
    with Alice's second angle, and nothing is raised. *)
Lemma CHSH_circuit_no_validation :
  (2 ≠ 0 ∧ 2 ≠ 1)%Z ∧
  CHSH_circuit 2 0 default_a0 default_a1 default_b0 default_b1
  = Ok {| num_qubits := 2;
          num_clbits := 2;
          data := [HGate 0; CXGate 0 1; RYGate default_a1 0;
                   RYGate default_b0 1; Measure 0 0; Measure 1 1] |}.
Proof. split; [lia|]. by rewrite CHSH_circuit_descriptor. Qed.




(** Nor does the division return for every count: a count beyond the
    range of the floats raises [OverflowError]. *)
Lemma winning_probability_overflow :
  winning_probability (stub [huge; ∅; ∅; ∅]) 1
    default_a0 default_a1 default_b0 default_b1
  = Raise OverflowError.
Proof.
  rewrite (winning_probability_response (stub [huge; ∅; ∅; ∅]) 1
             default_a0 default_a1 default_b0 default_b1 huge ∅ ∅ ∅) by done.
  vm_compute. reflexivity.
Qed.

Lemma ideal_counts_within :
  counts_within 8192 ideal_equal ∧ counts_within 8192 ideal_differ.
Proof.
  repeat split;
    solve [apply (bool_decide_unpack _); vm_compute; exact I
          | vm_compute; discriminate].
Qed.

Lemma winning_probability_unit_interval_ideal :
  ∃ p : Qc,
    winning_probability (stub ideal_response) 8192
      default_a0 default_a1 default_b0 default_b1 = Ok p ∧
    (0 ≤ p)%Qc ∧ (p ≤ 1)%Qc.
Proof.
  apply (winning_probability_unit_interval (stub ideal_response) 8192
           default_a0 default_a1 default_b0 default_b1
           ideal_equal ideal_equal ideal_equal ideal_differ);
    [lia | reflexivity | apply ideal_counts_within ..].
Defined.

(** C3 fails on the code for the shot count zero: the division raises. *)
Lemma winning_probability_zero_shots :
  (0 ≤ 0)%Z ∧
  winning_probability (stub [∅; ∅; ∅; ∅]) 0
    default_a0 default_a1 default_b0 default_b1
  = Raise ZeroDivisionError.
Proof.
  split; [lia|].
  by rewrite (winning_probability_response (stub [∅; ∅; ∅; ∅]) 0
                default_a0 default_a1 default_b0 default_b1 ∅ ∅ ∅ ∅).
Qed.

(** Nor does the estimator compare the counts with the shot count: a
    response that reports more outcomes than shots takes it above one. *)
Lemma winning_probability_overcount :
  ∃ p : Qc,
    winning_probability (stub [overcount; ∅; ∅; ∅]) 1
      default_a0 default_a1 default_b0 default_b1 = Ok p ∧
    (1 < p)%Qc.
Proof.
  exists (Q2Qc (inject_Z 8 / inject_Z 4)). split; [|done].
  rewrite (winning_probability_response (stub [overcount; ∅; ∅; ∅]) 1
             default_a0 default_a1 default_b0 default_b1 overcount ∅ ∅ ∅)
    by done.
  apply result_value_Ok. vm_compute. reflexivity.
Qed.

Lemma only_equal_within : counts_within 8192 only_equal.
Proof.
  split; [apply (bool_decide_unpack _); vm_compute; exact I|].
  vm_compute. discriminate.
Qed.

Lemma absent_key_counts_zero_only_equal :
  (∀ k, winning_probability
          (stub [only_equal; only_equal; only_equal; only_equal])
          8192 default_a0 default_a1 default_b0 default_b1
        ≠ Raise (KeyError k)) ∧
  wins_differ only_equal = 0%Z ∧
  winning_probability (stub [only_equal; only_equal; only_equal; only_equal])
    8192 default_a0 default_a1 default_b0 default_b1
  = true_div (wins_equal only_equal + wins_equal only_equal
              + wins_equal only_equal) (4 * 8192) ∧
  ∃ p, winning_probability
         (stub [only_equal; only_equal; only_equal; only_equal])
         8192 default_a0 default_a1 default_b0 default_b1 = Ok p.
Proof.
  destruct (absent_key_counts_zero
              (stub [only_equal; only_equal; only_equal; only_equal]) 8192
              default_a0 default_a1 default_b0 default_b1
              only_equal only_equal only_equal only_equal eq_refl)
    as (_ & Hkey & Habsent).
  destruct (Habsent eq_refl eq_refl) as (Hzero & Hdiv & Hvalue).
  split; [exact Hkey|]. split; [exact Hzero|]. split; [exact Hdiv|].
  apply Hvalue; [lia | apply only_equal_within ..].
Defined.

(** C5 fails on the code where the division does: with counts for "00"
    and "11" only, the call still raises for the shot count zero. *)
Lemma absent_keys_zero_shots :
  no_shots !! "01" = None ∧ no_shots !! "10" = None ∧
  winning_probability (stub [no_shots; no_shots; no_shots; no_shots]) 0
    default_a0 default_a1 default_b0 default_b1
  = Raise ZeroDivisionError.
Proof.
  do 2 (split; [reflexivity|]).
  by rewrite (winning_probability_response
                (stub [no_shots; no_shots; no_shots; no_shots]) 0
                default_a0 default_a1 default_b0 default_b1
                no_shots no_shots no_shots no_shots).
Qed.

Lemma zero_counts_all_zero : map_Forall (λ _ v, v = 0%Z) zero_counts.
Proof. apply (bool_decide_unpack _). vm_compute. exact I. Qed.

Lemma winning_probability_all_zero_stub :
  winning_probability (stub [zero_counts; zero_counts; zero_counts; zero_counts])
    8192 default_a0 default_a1 default_b0 default_b1
  = Ok 0%Qc.
Proof.
  apply (winning_probability_all_zero
           (stub [zero_counts; zero_counts; zero_counts; zero_counts]) 8192
           default_a0 default_a1 default_b0 default_b1
           zero_counts zero_counts zero_counts zero_counts);
    [lia | reflexivity | apply zero_counts_all_zero ..].
Defined.

Lemma winning_probability_noisy_response :
  winning_probability (stub ideal_response) 8192
    default_a0 default_a1 default_b0 default_b1
  = winning_probability (stub [noisy_equal; noisy_equal; noisy_equal; noisy_differ])
      8192 default_a0 default_a1 default_b0 default_b1.
Proof.
  apply (winning_probability_only_winning_keys
           (stub ideal_response)
           (stub [noisy_equal; noisy_equal; noisy_equal; noisy_differ]) 8192
           default_a0 default_a1 default_b0 default_b1
           ideal_equal ideal_equal ideal_equal ideal_differ
           noisy_equal noisy_equal noisy_equal noisy_differ);
    reflexivity.
Defined.

(** A backend whose answer depends on the place of a circuit in its
    request separates the two estimators. *)
Lemma positional_backend_separates {angle : Type} (a0 a1 b0 b1 : angle) :
  winning_probability positional_backend 1 a0 a1 b0 b1
  ≠ winning_probability_separate positional_backend 1 a0 a1 b0 b1.
Proof. vm_compute. intros [=]. Qed.

Lemma winning_probability_ideal_stub :
  ∃ p : Qc,
    winning_probability (stub ideal_response) 8192
      default_a0 default_a1 default_b0 default_b1 = Ok p ∧
    p = Q2Qc (27968 # 32768) ∧
    (distance p (8536 # 10000) <= 1 # 10000)%Q.
Proof.
  apply (winning_probability_ideal (stub ideal_response)
           default_a0 default_a1 default_b0 default_b1
           ideal_equal ideal_equal ideal_equal ideal_differ);
    [reflexivity | apply ideal_response_theoretical].
Defined.

(** C9 fails on the numbers: the stub of the rounded theoretical counts
    yields 0.853515625, which is 8.4e-5 away from 0.8536. *)
Lemma winning_probability_ideal_not_1e9 :
  theoretical_response 8192 ideal_equal ideal_equal ideal_equal ideal_differ ∧
  ∃ p : Qc,
    winning_probability (stub ideal_response) 8192
      default_a0 default_a1 default_b0 default_b1 = Ok p ∧
    ¬ (distance p (8536 # 10000) <= 1 # 1000000000)%Q.
Proof.
  split; [apply ideal_response_theoretical|].
  exists (Q2Qc (27968 # 32768)). split.
  - rewrite (winning_probability_response (stub ideal_response) 8192
               default_a0 default_a1 default_b0 default_b1
               ideal_equal ideal_equal ideal_equal ideal_differ) by done.
    apply result_value_Ok. vm_compute. reflexivity.
  - rewrite distance_ideal_target. by vm_compute.
Qed.

(** ** Failures of the estimator *)

Section Failures.

Context {angle : Type}.
Implicit Types (backend : Backend angle) (counts : gmap string Z).
Implicit Types (shots total : Z) (e : exn).

Lemma equal_outputs_missing (job : Job) (res : list (gmap string Z))
  (i : nat) (qc : QuantumCircuit angle) total :
  job_result job = Ok res →
  res !! i = None →
  equal_outputs job total (i, qc) = Raise QiskitError.
Proof.
  intros Hres Hi. unfold equal_outputs, get_counts.
  rewrite Hres. cbn [mbind result_bind fst]. by rewrite Hi.
Qed.

Lemma equal_outputs_failed (job : Job) (i : nat) (qc : QuantumCircuit angle)
  total e :
  job_result job = Raise e → equal_outputs job total (i, qc) = Raise e.
Proof. intros Hres. unfold equal_outputs. by rewrite Hres. Qed.

(** The estimator on any answer of the backend. *)
Lemma winning_probability_backend backend shots (a0 a1 b0 b1 : angle) :
  winning_probability backend shots a0 a1 b0 b1
  = match backend (batch a0 a1 b0 b1) shots with
    | Raise e => Raise e
    | Ok (r00 :: r01 :: r10 :: r11 :: _) =>
        true_div (win_sum r00 r01 r10 r11) (4 * shots)
    | Ok _ => Raise QiskitError
    end.
Proof.
  unfold winning_probability.
  rewrite !CHSH_circuit_descriptor. cbn [mbind result_bind].
  fold (batch a0 a1 b0 b1).
  set (job := execute _ backend shots).
  assert (Hjob : job_result job = backend (batch a0 a1 b0 b1) shots) by done.
  unfold indexed, batch. cbn [length seq zip zip_with take for_each].
  fold (batch a0 a1 b0 b1).
  destruct (backend (batch a0 a1 b0 b1) shots) as [res|e] eqn:Hresp.
  - destruct res as [|r00 res].
    { by rewrite (equal_outputs_missing job [] 0). }
    rewrite (equal_outputs_response job _ 0 _ r00) by done.
    cbn [mbind result_bind]. destruct res as [|r01 res].
    { by rewrite (equal_outputs_missing job [r00] 1). }
    rewrite (equal_outputs_response job _ 1 _ r01) by done.
    cbn [mbind result_bind]. destruct res as [|r10 res].
    { by rewrite (equal_outputs_missing job [r00; r01] 2). }
    rewrite (equal_outputs_response job _ 2 _ r10) by done.
    cbn [mbind result_bind]. rewrite Hjob. cbn [mbind result_bind].
    destruct res as [|r11 res]; [done|].
    cbn [mbind result_bind get_counts lookup list_lookup].
    rewrite add_count_count_of. cbn [mbind result_bind].
    rewrite add_count_count_of. cbn [mbind result_bind].
    unfold win_sum, wins_differ. f_equal. lia.
  - by rewrite (equal_outputs_failed job 0 _ _ e).
Qed.

(** X1: an error of the backend reaches the caller unchanged: the estimator
    catches nothing. *)
Theorem backend_error_propagates backend shots (a0 a1 b0 b1 : angle) e :
  backend (batch a0 a1 b0 b1) shots = Raise e →
  winning_probability backend shots a0 a1 b0 b1 = Raise e.
Proof. intros Hresp. by rewrite winning_probability_backend, Hresp. Qed.

(** X2: an error of the estimator that the backend did not raise is a
    [QiskitError], from reading the counts of a circuit, a
    [ZeroDivisionError], for the shot count zero only, or an
    [OverflowError], from the division and for a shot count other than
    zero only.  In particular no key of a counts dictionary is ever missed
    and no circuit is ever ill-formed. *)
Theorem winning_probability_errors backend shots (a0 a1 b0 b1 : angle) e :
  winning_probability backend shots a0 a1 b0 b1 = Raise e →
  backend (batch a0 a1 b0 b1) shots = Raise e ∨
  e = QiskitError ∨
  (e = ZeroDivisionError ∧ shots = 0%Z) ∨
  (e = OverflowError ∧ shots ≠ 0%Z).
Proof.
  rewrite winning_probability_backend.
  destruct (backend (batch a0 a1 b0 b1) shots) as [res|e'] eqn:Hresp.
  - destruct res as [|r00 [|r01 [|r10 [|r11 res]]]]; intros He.
    1-4: right; left; congruence.
    right. right. apply true_div_raises in He as [[? ->]|[? ->]].
    + left. split; [done | lia].
    + right. split; [done | lia].
  - intros He. left. congruence.
Qed.

End Failures.

(** ** Batching *)

Section Batching.

Context {angle : Type}.
Implicit Types (backend : Backend angle) (shots total : Z).
Implicit Types (sample : QuantumCircuit angle → Z → result (gmap string Z)).

Lemma equal_outputs_alone_independent backend sample shots total
  (qc : QuantumCircuit angle) :
  batch_independent backend sample →
  equal_outputs_alone backend shots total qc
  = (counts ← sample qc shots; Ok (total + wins_equal counts)%Z).
Proof.
  intros Hsample. unfold equal_outputs_alone, execute.
  cbn [job_result]. rewrite Hsample. cbn [run_each].
  destruct (sample qc shots) as [counts|e]; [|done].
  cbn [mbind result_bind mret result_ret get_counts lookup list_lookup].
  rewrite add_count_count_of. cbn [mbind result_bind].
  rewrite add_count_count_of. cbn. unfold wins_equal. f_equal. lia.
Qed.

(** C7, as the code has it: when what the backend answers for a
    descriptor, counts or failure, depends on the descriptor and on the
    shot count only and not on the request it is sent in, the batched
    estimator and the estimator that issues four independent requests have
    the same outcome: the first failure among the four descriptors, or the
    quotient of their winning counts by [4 * shots]. *)
Theorem batching_preserves_estimate backend sample shots (a0 a1 b0 b1 : angle) :
  batch_independent backend sample →
  winning_probability backend shots a0 a1 b0 b1
  = winning_probability_separate backend shots a0 a1 b0 b1 ∧
  winning_probability backend shots a0 a1 b0 b1
  = (r00 ← sample (descriptor 0 0 a0 a1 b0 b1) shots;
     r01 ← sample (descriptor 0 1 a0 a1 b0 b1) shots;
     r10 ← sample (descriptor 1 0 a0 a1 b0 b1) shots;
     r11 ← sample (descriptor 1 1 a0 a1 b0 b1) shots;
     true_div (win_sum r00 r01 r10 r11) (4 * shots)).
Proof.
  intros Hsample.
  assert (winning_probability backend shots a0 a1 b0 b1
          = (r00 ← sample (descriptor 0 0 a0 a1 b0 b1) shots;
             r01 ← sample (descriptor 0 1 a0 a1 b0 b1) shots;
             r10 ← sample (descriptor 1 0 a0 a1 b0 b1) shots;
             r11 ← sample (descriptor 1 1 a0 a1 b0 b1) shots;
             true_div (win_sum r00 r01 r10 r11) (4 * shots))) as Hbatch.
  { rewrite winning_probability_backend, Hsample.
    unfold batch. cbn [run_each].
    destruct (sample (descriptor 0 0 a0 a1 b0 b1) shots) as [r00|e]; [|done].
    destruct (sample (descriptor 0 1 a0 a1 b0 b1) shots) as [r01|e]; [|done].
    destruct (sample (descriptor 1 0 a0 a1 b0 b1) shots) as [r10|e]; [|done].
    by destruct (sample (descriptor 1 1 a0 a1 b0 b1) shots) as [r11|e]. }
  split; [|done]. rewrite Hbatch.
  unfold winning_probability_separate.
  rewrite !CHSH_circuit_descriptor. cbn [mbind result_bind take for_each].
  rewrite (equal_outputs_alone_independent _ sample) by done.
  destruct (sample (descriptor 0 0 a0 a1 b0 b1) shots) as [r00|e]; [|done].
  cbn [mbind result_bind].
  rewrite (equal_outputs_alone_independent _ sample) by done.
  destruct (sample (descriptor 0 1 a0 a1 b0 b1) shots) as [r01|e]; [|done].
  cbn [mbind result_bind].
  rewrite (equal_outputs_alone_independent _ sample) by done.
  destruct (sample (descriptor 1 0 a0 a1 b0 b1) shots) as [r10|e]; [|done].
  cbn [mbind result_bind]. unfold execute. cbn [job_result].
  rewrite Hsample. cbn [run_each].
  destruct (sample (descriptor 1 1 a0 a1 b0 b1) shots) as [r11|e]; [|done].
  cbn [mbind result_bind mret result_ret get_counts lookup list_lookup].
  rewrite add_count_count_of. cbn [mbind result_bind].
  rewrite add_count_count_of. cbn [mbind result_bind].
  unfold win_sum, wins_differ. f_equal. lia.
Qed.

Lemma sampling_backend_independent
  (f : QuantumCircuit angle → Z → gmap string Z) :
  batch_independent (sampling_backend f) (λ qc shots, Ok (f qc shots)).
Proof.
  intros circuits shots. unfold sampling_backend.
  induction circuits as [|qc circuits IH]; [done|].
  cbn [run_each map mbind result_bind]. by rewrite <- IH.
Qed.

End Batching.

(** ** Wins and losses *)

Lemma count_of_delete_ne (counts : gmap string Z) (k k' : string) :
  k ≠ k' → count_of (delete k counts) k' = count_of counts k'.
Proof. intros Hne. unfold count_of. by rewrite lookup_delete_ne. Qed.

Lemma total_counts_two_bit (counts : gmap string Z) :
  two_bit_outcomes counts →
  total_counts counts = (wins_equal counts + wins_differ counts)%Z.
Proof.
  intros Hdom.
  rewrite (total_counts_delete counts "00").
  rewrite (total_counts_delete _ "11").
  rewrite (total_counts_delete _ "01").
  rewrite (total_counts_delete _ "10").
  rewrite !count_of_delete_ne by done.
  assert (delete "10" (delete "01" (delete "11" (delete "00" counts))) = ∅)
    as ->.
  { apply map_empty. intros k. rewrite !lookup_delete.
    repeat case_decide; try done.
    apply not_elem_of_dom. intros Hk. apply Hdom in Hk.
    rewrite !elem_of_union, !elem_of_singleton in Hk. intuition congruence. }
  unfold total_counts, wins_equal, wins_differ.
  rewrite map_fold_empty. lia.
Qed.

Section Frequencies.

Context {angle : Type}.
Implicit Types (backend : Backend angle) (shots : Z).

(** X3: every shot is a win or a loss.  When the counts of each descriptor
    hold only the four two-bit outcomes and add up to [shots], the winning
    and the losing counts add up to [4 * shots], so the estimate is the
    quotient of the shots that are not lost by all shots; and with no
    losing count at all it is exactly one. *)
Theorem wins_and_losses_add_up backend shots (a0 a1 b0 b1 : angle)
  (r00 r01 r10 r11 : gmap string Z) :
  (0 < shots)%Z →
  backend (batch a0 a1 b0 b1) shots = Ok [r00; r01; r10; r11] →
  two_bit_outcomes r00 → two_bit_outcomes r01 →
  two_bit_outcomes r10 → two_bit_outcomes r11 →
  total_counts r00 = shots → total_counts r01 = shots →
  total_counts r10 = shots → total_counts r11 = shots →
  (win_sum r00 r01 r10 r11 + losing_sum r00 r01 r10 r11 = 4 * shots)%Z ∧
  winning_probability backend shots a0 a1 b0 b1
  = true_div (4 * shots - losing_sum r00 r01 r10 r11) (4 * shots) ∧
  (losing_sum r00 r01 r10 r11 = 0%Z →
   winning_probability backend shots a0 a1 b0 b1 = Ok 1%Qc).
Proof.
  intros Hshots Hresp D00 D01 D10 D11 T00 T01 T10 T11.
  rewrite (winning_probability_response _ _ _ _ _ _ _ _ _ _ Hresp).
  apply total_counts_two_bit in D00, D01, D10, D11.
  assert (win_sum r00 r01 r10 r11 + losing_sum r00 r01 r10 r11 = 4 * shots)%Z
    as Hsum by (unfold losing_sum, win_sum; lia).
  split; [done|]. split; [f_equal; lia|].
  intros Hnone.
  replace (win_sum r00 r01 r10 r11) with (4 * shots)%Z by lia.
  assert (float_quotient (4 * shots) (4 * shots)) as Hfloat.
  { exists 1%Z, 0%Z. repeat split; first [lia | done]. }
  rewrite true_div_exact by (done || lia).
  f_equal. apply Qc_is_canon. cbn [this Q2Qc]. rewrite Qred_correct.
  apply Qmult_inv_r, inject_Z_nonzero. lia.
Qed.

End Frequencies.

(** ** The sweep of the Shor notebook *)

Section SweepProperties.

Import ShorSweep.

Context {algorithm factors : Type}.
Context (Shor : Z → Z → result algorithm).
Context (run : algorithm → result (gmap string factors)).

Implicit Types (N a f : Z) (out : list (line factors)) (todo : list Z).
Implicit Types (fs : Z → factors).

Lemma gcd_shared_factor N a :
  (2 ≤ a < N)%Z → Z.gcd N a ≠ 1%Z →
  (1 < Z.gcd N a < N)%Z ∧ (Z.gcd N a | N)%Z.
Proof.
  intros Ha Hf.
  pose proof (Z.gcd_nonneg N a) as Hnonneg.
  pose proof (Z.gcd_divide_l N a) as HN.
  pose proof (Z.gcd_divide_r N a) as Hdiv.
  assert (Z.gcd N a ≠ 0)%Z as Hnz.
  { intros H0. apply Z.gcd_eq_0_r in H0. lia. }
  apply Z.divide_pos_le in Hdiv; [|lia].
  split; [lia | done].
Qed.

Lemma body_output N out a :
  ∃ more, (body Shor run N out a).1 = out ++ [Blank; Banner a; Blank] ++ more ∧
    (more = [] ∨ (∃ v, more = [Factors v] ∧ Z.gcd N a = 1%Z) ∨
     (more = [AFactor N (Z.gcd N a)] ∧ Z.gcd N a ≠ 1%Z)).
Proof.
  unfold body. destruct (decide (Z.gcd N a = 1%Z)) as [Hf|Hf].
  - destruct (shor_factors Shor run N a) as [v|e]; cbn [fst].
    + exists [Factors v]. rewrite <- app_assoc. split; [done|]. right. left. eauto.
    + exists []. rewrite app_nil_r. split; [done|]. by left.
  - exists [AFactor N (Z.gcd N a)]. cbn [fst]. rewrite <- app_assoc.
    split; [done|]. right. by right.
Qed.

(** Every "A factor of" line of the loop comes with a proper divisor. *)
Lemma loop_factor_lines N todo : ∀ out,
  Forall (λ a, 2 ≤ a < N)%Z todo →
  (∀ n f, AFactor n f ∈ out → n = N ∧ (1 < f < N)%Z ∧ (f | N)%Z) →
  ∀ n f, AFactor n f ∈ (loop Shor run N out todo).1 →
    n = N ∧ (1 < f < N)%Z ∧ (f | N)%Z.
Proof.
  induction todo as [|a todo IH]; intros out Htodo Hout n f; [by apply Hout|].
  apply Forall_cons in Htodo as [Ha Htodo]. cbn [loop].
  destruct (body_output N out a) as (more & Hbody & Hmore).
  assert (∀ n f, AFactor n f ∈ (body Shor run N out a).1 →
            n = N ∧ (1 < f < N)%Z ∧ (f | N)%Z) as Hout'.
  { intros n' f'. rewrite Hbody, !elem_of_app, !elem_of_cons, elem_of_nil.
    intros [Hin|[[?|[?|[?|[]]]]|Hin]]; try done; [by apply Hout|].
    destruct Hmore as [->|[(v & -> & _)|[-> Hf]]].
    - by apply elem_of_nil in Hin.
    - apply list_elem_of_singleton in Hin. done.
    - apply list_elem_of_singleton in Hin. injection Hin as -> ->.
      split; [done|]. by apply gcd_shared_factor. }
  destruct (body Shor run N out a) as [out' [[]|e]]; cbn [fst] in *.
  - by apply IH.
  - apply Hout'.
Qed.

(** The sweep reads Shor's algorithm only at the [a] coprime to [N]. *)
Lemma loop_coprime_only {algorithm' : Type}
  (Shor' : Z → Z → result algorithm')
  (run' : algorithm' → result (gmap string factors)) N todo : ∀ out,
  Forall (λ a, Z.gcd N a = 1%Z →
               shor_factors Shor run N a = shor_factors Shor' run' N a) todo →
  loop Shor run N out todo = loop Shor' run' N out todo.
Proof.
  induction todo as [|a todo IH]; intros out Htodo; [done|].
  apply Forall_cons in Htodo as [Ha Htodo]. cbn [loop].
  assert (body Shor run N out a = body Shor' run' N out a) as ->.
  { unfold body. destruct (decide (Z.gcd N a = 1%Z)); [|done]. by rewrite Ha. }
  destruct (body Shor' run' N out a) as [out' [[]|e]]; [|done]. by apply IH.
Qed.

(** The loop when Shor's algorithm answers [fs a] wherever it is run. *)
Lemma loop_answers fs N todo : ∀ out,
  Forall (λ a, Z.gcd N a = 1%Z → shor_factors Shor run N a = Ok (fs a)) todo →
  loop Shor run N out todo = (out ++ flat_map (answer fs N) todo, Ok ()).
Proof.
  induction todo as [|a todo IH]; intros out Htodo.
  - cbn. by rewrite app_nil_r.
  - apply Forall_cons in Htodo as [Ha Htodo]. cbn [loop flat_map].
    assert (body Shor run N out a = (out ++ answer fs N a, Ok ())) as ->.
    { unfold body, answer. destruct (decide (Z.gcd N a = 1%Z)).
      - rewrite Ha by done. by rewrite <- app_assoc.
      - by rewrite <- app_assoc. }
    rewrite IH by done. by rewrite <- app_assoc.
Qed.

Lemma loop_app N todo1 todo2 out out' :
  loop Shor run N out todo1 = (out', Ok ()) →
  loop Shor run N out (todo1 ++ todo2) = loop Shor run N out' todo2.
Proof.
  revert out. induction todo1 as [|a todo1 IH]; intros out Hloop.
  - by injection Hloop as ->.
  - cbn [loop app] in *.
    destruct (body Shor run N out a) as [out1 [[]|e]]; [|done]. by apply IH.
Qed.

Lemma range_split lo mid hi :
  (lo ≤ mid < hi)%Z →
  range lo hi = range lo mid ++ mid :: range (mid + 1) hi.
Proof.
  intros Hmid. unfold range.
  replace (hi - lo)%Z with ((mid - lo) + (hi - mid))%Z by lia.
  rewrite seqZ_app by lia.
  replace (lo + (mid - lo))%Z with mid by lia.
  rewrite (seqZ_cons mid) by lia. do 3 f_equal; lia.
Qed.

Lemma elem_of_range lo hi a : a ∈ range lo hi ↔ (lo ≤ a < hi)%Z.
Proof. unfold range. rewrite elem_of_seqZ. lia. Qed.

Lemma Forall_range (P : Z → Prop) lo hi :
  (∀ a, (lo ≤ a < hi)%Z → P a) → Forall P (range lo hi).
Proof.
  intros HP. apply Forall_forall. intros a Ha. by apply HP, elem_of_range.
Qed.

(** X5: whatever Shor's algorithm does, a line "A factor of N is f" of the
    sweep names a proper divisor of [N]: [f] divides [N] and lies strictly
    between 1 and [N]. *)
Theorem sweep_factor_is_proper_divisor N n f :
  AFactor n f ∈ (sweep Shor run N).1 →
  n = N ∧ (1 < f < N)%Z ∧ (f | N)%Z.
Proof.
  unfold sweep. apply loop_factor_lines.
  - apply Forall_range. lia.
  - intros n' f' Hin. by apply list_elem_of_singleton in Hin.
Qed.

(** X6: Shor's algorithm is consulted only for the [a] of [range(2, N)] that
    are coprime to [N]: two algorithms that agree there give the same
    sweep, output and outcome. *)
Theorem sweep_runs_shor_on_coprime_only {algorithm' : Type}
  (Shor' : Z → Z → result algorithm')
  (run' : algorithm' → result (gmap string factors)) N :
  (∀ a, (2 ≤ a < N)%Z → Z.gcd N a = 1%Z →
        shor_factors Shor run N a = shor_factors Shor' run' N a) →
  sweep Shor run N = sweep Shor' run' N.
Proof.
  intros Hagree. unfold sweep. apply loop_coprime_only.
  apply Forall_range. intros a Ha. by apply Hagree.
Qed.

(** X7: when Shor's algorithm never fails, the sweep ends normally and
    reports every proper divisor [d] of [N] as a factor. *)
Theorem sweep_reports_every_divisor fs N d :
  (∀ a, (2 ≤ a < N)%Z → Z.gcd N a = 1%Z →
        shor_factors Shor run N a = Ok (fs a)) →
  (1 < d < N)%Z → (d | N)%Z →
  (sweep Shor run N).2 = Ok () ∧ AFactor N d ∈ (sweep Shor run N).1.
Proof.
  intros Hfs Hd Hdiv. unfold sweep.
  rewrite (loop_answers fs) by (apply Forall_range; intros a Ha; by apply Hfs).
  split; [done|]. cbn [fst].
  apply elem_of_app. right. apply list_elem_of_In, in_flat_map.
  exists d. split; [apply list_elem_of_In, elem_of_range; lia|].
  assert (Z.gcd N d = d) as Hgcd.
  { rewrite Z.gcd_comm. apply Z.divide_gcd_iff; [lia | done]. }
  unfold answer. rewrite Hgcd.
  destruct (decide (d = 1%Z)); [lia|]. cbn. tauto.
Qed.

Lemma loop_failure_ends N todo a e : ∀ out,
  a ∈ todo → Forall (λ a', Z.gcd N a' = 1%Z) todo →
  shor_factors Shor run N a = Raise e →
  (loop Shor run N out todo).2 ≠ Ok ().
Proof.
  induction todo as [|a' todo IH]; intros out Hin Hall Hfail.
  - by apply elem_of_nil in Hin.
  - apply Forall_cons in Hall as [Ha' Hall]. cbn [loop]. unfold body.
    destruct (decide (Z.gcd N a' = 1%Z)); [|done].
    destruct (shor_factors Shor run N a') as [v|e'] eqn:Ha; [|done].
    apply elem_of_cons in Hin as [->|Hin]; [congruence|]. by apply IH.
Qed.

Lemma flat_map_answer_coprime fs N todo :
  Forall (λ a, Z.gcd N a = 1%Z) todo →
  flat_map (answer fs N) todo
  = flat_map (λ a, [Blank; Banner a; Blank; Factors (fs a)]) todo.
Proof.
  induction 1 as [|a todo Ha _ IH]; [done|].
  cbn [flat_map]. rewrite IH. unfold answer.
  by destruct (decide (Z.gcd N a = 1%Z)).
Qed.

(** X8: for a prime [N] the sweep never prints a factor, and every [a] of
    [range(2, N)] is handed to Shor's algorithm: every [a] is coprime to
    [N], every answer line is the factors Shor's algorithm reports when it
    never fails, and its failure at any [a] keeps the sweep from ending
    normally. *)
Theorem sweep_prime_all_to_shor N :
  Z.prime N →
  (∀ a, (2 ≤ a < N)%Z → Z.gcd N a = 1%Z) ∧
  (∀ n f, AFactor n f ∉ (sweep Shor run N).1) ∧
  (∀ fs, (∀ a, (2 ≤ a < N)%Z → shor_factors Shor run N a = Ok (fs a)) →
     sweep Shor run N
     = (Header N
          :: flat_map (λ a, [Blank; Banner a; Blank; Factors (fs a)]) (range 2 N),
        Ok ())) ∧
  (∀ a e, (2 ≤ a < N)%Z → shor_factors Shor run N a = Raise e →
     (sweep Shor run N).2 ≠ Ok ()).
Proof.
  intros Hprime.
  assert (∀ a, (2 ≤ a < N)%Z → Z.gcd N a = 1%Z) as Hcoprime.
  { intros a Ha. apply (Z.coprime_prime_small N a Hprime). lia. }
  split; [done|]. split; [|split].
  - intros n f Hin.
    assert (n = N ∧ (1 < f < N)%Z ∧ (f | N)%Z) as (_ & Hf & Hdiv).
    { revert Hin. unfold sweep. apply loop_factor_lines.
      - apply Forall_range. lia.
      - intros n' f' Hin. by apply list_elem_of_singleton in Hin. }
    destruct Hprime as [_ Hnone]. by apply (Hnone f).
  - intros fs Hfs. unfold sweep.
    rewrite (loop_answers fs) by (apply Forall_range; intros a Ha _; by apply Hfs).
    by rewrite flat_map_answer_coprime by by apply Forall_range.
  - intros a e Ha Hfail. unfold sweep.
    apply (loop_failure_ends N _ a e); [by apply elem_of_range | | done].
    by apply Forall_range.
Qed.

(** X9: a failure of Shor's algorithm ends the sweep: when it first fails at
    [a], the error reaches the caller and the output stops after the
    banner of [a], the earlier [a] having been answered. *)
Theorem sweep_stops_at_first_failure fs N a e :
  (2 ≤ a < N)%Z → Z.gcd N a = 1%Z →
  shor_factors Shor run N a = Raise e →
  (∀ a', (2 ≤ a' < a)%Z → Z.gcd N a' = 1%Z →
         shor_factors Shor run N a' = Ok (fs a')) →
  sweep Shor run N
  = (Header N :: flat_map (answer fs N) (range 2 a) ++ [Blank; Banner a; Blank],
     Raise e).
Proof.
  intros Ha Hgcd Hfail Hfs. unfold sweep.
  rewrite (range_split 2 a N) by done.
  rewrite (loop_app N _ _ _ ([Header N] ++ flat_map (answer fs N) (range 2 a)))
    by (apply loop_answers, Forall_range; intros a' Ha'; by apply Hfs).
  cbn [loop]. unfold body.
  destruct (decide (Z.gcd N a = 1%Z)); [|done]. by rewrite Hfail.
Qed.

(** For [N] up to 2 there is no [a] to try: the sweep prints its header
    and nothing else. *)
Lemma sweep_empty_range N :
  (N ≤ 2)%Z → sweep Shor run N = ([Header N], Ok ()).
Proof. intros HN. unfold sweep, range. by rewrite seqZ_nil by lia. Qed.

End SweepProperties.

(** ** The labelled examples *)

Lemma zip_labels {row : Type} (A B : list row) (x y : Z) :
  zip (A ++ B) (replicate (length A) x ++ replicate (length B) y)
  = ((λ r, (r, x)) <$> A) ++ ((λ r, (r, y)) <$> B).
Proof.
  revert B. induction A as [|r A IH]; intros B; cbn.
  - induction B as [|r B IH]; [done|]. cbn. by rewrite IH.
  - by rewrite IH.
Qed.

(** X10: when both classes have [n] examples, the labels line up with the
    rows: every row of the first array is paired with 0, every row of the
    second with 1, and no row or label is left over. *)
Theorem labels_line_up {row : Type} (A B : list row) (n : Z) :
  Z.of_nat (length A) = n → Z.of_nat (length B) = n →
  QSVM.labelled A B n = ((λ r, (r, 0%Z)) <$> A) ++ ((λ r, (r, 1%Z)) <$> B) ∧
  length (QSVM.append_rows A B) = length (QSVM.labels n).
Proof.
  intros HA HB. unfold QSVM.labelled, QSVM.labels, QSVM.append_rows.
  assert (Z.to_nat n = length A) as HnA by lia.
  assert (length B = length A) as HBA by lia.
  rewrite HnA. split.
  - rewrite <- HBA at 2. apply zip_labels.
  - rewrite !length_app, !length_replicate. lia.
Qed.

(** ** The further properties on concrete inputs *)

Lemma backend_error_propagates_default :
  winning_probability (failing_backend QiskitError) 8192
    default_a0 default_a1 default_b0 default_b1
  = Raise QiskitError.
Proof.
  apply (backend_error_propagates (failing_backend QiskitError) 8192).
  reflexivity.
Defined.

Lemma winning_probability_errors_overflow :
  stub [huge; ∅; ∅; ∅] (batch default_a0 default_a1 default_b0 default_b1) 1%Z
  = Raise OverflowError ∨
  OverflowError = QiskitError ∨
  (OverflowError = ZeroDivisionError ∧ 1%Z = 0%Z) ∨
  (OverflowError = OverflowError ∧ 1%Z ≠ 0%Z).
Proof.
  apply (winning_probability_errors (stub [huge; ∅; ∅; ∅]) 1
           default_a0 default_a1 default_b0 default_b1 OverflowError).
  rewrite (winning_probability_response (stub [huge; ∅; ∅; ∅]) 1
             default_a0 default_a1 default_b0 default_b1 huge ∅ ∅ ∅) by done.
  vm_compute. reflexivity.
Defined.

Lemma ideal_counts_two_bit :
  two_bit_outcomes ideal_equal ∧ two_bit_outcomes ideal_differ.
Proof.
  split; unfold two_bit_outcomes; apply (bool_decide_unpack _);
    vm_compute; exact I.
Qed.

Lemma only_counts_two_bit :
  two_bit_outcomes only_equal ∧ two_bit_outcomes only_differ.
Proof.
  split; unfold two_bit_outcomes; apply (bool_decide_unpack _);
    vm_compute; exact I.
Qed.

Lemma wins_and_losses_add_up_all_wins :
  (win_sum only_equal only_equal only_equal only_differ
   + losing_sum only_equal only_equal only_equal only_differ = 4 * 8192)%Z ∧
  winning_probability (stub [only_equal; only_equal; only_equal; only_differ])
    8192 default_a0 default_a1 default_b0 default_b1
  = true_div (4 * 8192
              - losing_sum only_equal only_equal only_equal only_differ)
             (4 * 8192) ∧
  winning_probability (stub [only_equal; only_equal; only_equal; only_differ])
    8192 default_a0 default_a1 default_b0 default_b1
  = Ok 1%Qc.
Proof.
  destruct (wins_and_losses_add_up
              (stub [only_equal; only_equal; only_equal; only_differ]) 8192
              default_a0 default_a1 default_b0 default_b1
              only_equal only_equal only_equal only_differ)
    as (Hsum & Hdiv & Hone);
    first [lia | reflexivity | apply only_counts_two_bit | idtac].
  split; [exact Hsum|]. split; [exact Hdiv|]. apply Hone. reflexivity.
Defined.

Lemma sweep_factor_is_proper_divisor_15 :
  15%Z = 15%Z ∧ (1 < 3 < 15)%Z ∧ (3 | 15)%Z.
Proof.
  apply (sweep_factor_is_proper_divisor steady_Shor steady_run 15 15 3).
  apply (list_elem_of_lookup_2 _ 8). vm_compute. reflexivity.
Defined.

Lemma sweep_runs_shor_on_coprime_only_15 :
  ShorSweep.sweep steady_Shor steady_run 15
  = ShorSweep.sweep strict_Shor steady_run 15.
Proof.
  apply (sweep_runs_shor_on_coprime_only steady_Shor steady_run
           strict_Shor steady_run 15).
  intros a _ Hgcd. unfold ShorSweep.shor_factors, strict_Shor.
  by rewrite decide_True.
Defined.

Lemma sweep_reports_every_divisor_15 :
  (ShorSweep.sweep steady_Shor steady_run 15).2 = Ok () ∧
  ShorSweep.AFactor 15 5 ∈ (ShorSweep.sweep steady_Shor steady_run 15).1.
Proof.
  apply (sweep_reports_every_divisor steady_Shor steady_run
           (λ _, [3%Z; 5%Z]) 15 5).
  - intros a _ _. reflexivity.
  - lia.
  - exists 3%Z. reflexivity.
Defined.

Lemma prime_7 : Z.prime 7.
Proof.
  split; [lia|]. intros n Hn [k Hk].
  assert (n = 2 ∨ n = 3 ∨ n = 4 ∨ n = 5 ∨ n = 6)%Z
    as [->|[->|[->|[->| ->]]]] by lia; lia.
Qed.

Lemma sweep_prime_all_to_shor_7 :
  (∀ a, (2 ≤ a < 7)%Z → Z.gcd 7 a = 1%Z) ∧
  (∀ n f, ShorSweep.AFactor n f ∉ (ShorSweep.sweep steady_Shor steady_run 7).1) ∧
  ShorSweep.sweep steady_Shor steady_run 7
  = (ShorSweep.Header 7
       :: flat_map (λ a, [ShorSweep.Blank; ShorSweep.Banner a;
                          ShorSweep.Blank; ShorSweep.Factors [3%Z; 5%Z]])
            (ShorSweep.range 2 7),
     Ok ()) ∧
  (∀ a e, (2 ≤ a < 7)%Z →
     ShorSweep.shor_factors flaky_Shor steady_run 7 a = Raise e →
     (ShorSweep.sweep flaky_Shor steady_run 7).2 ≠ Ok ()).
Proof.
  destruct (sweep_prime_all_to_shor steady_Shor steady_run 7 prime_7)
    as (Hcoprime & Hnone & Hall & _).
  destruct (sweep_prime_all_to_shor flaky_Shor steady_run 7 prime_7)
    as (_ & _ & _ & Hfail).
  split; [exact Hcoprime|]. split; [exact Hnone|]. split; [|exact Hfail].
  apply (Hall (λ _, [3%Z; 5%Z])). intros a _. reflexivity.
Defined.

Lemma sweep_stops_at_first_failure_15 :
  ShorSweep.sweep flaky_Shor steady_run 15
  = (ShorSweep.Header 15
       :: flat_map (ShorSweep.answer (λ _, [3%Z; 5%Z]) 15) (ShorSweep.range 2 4)
       ++ [ShorSweep.Blank; ShorSweep.Banner 4; ShorSweep.Blank],
     Raise QiskitError).
Proof.
  apply (sweep_stops_at_first_failure flaky_Shor steady_run
           (λ _, [3%Z; 5%Z]) 15 4 QiskitError).
  - lia.
  - reflexivity.
  - reflexivity.
  - intros a Ha _. unfold ShorSweep.shor_factors, flaky_Shor.
    rewrite decide_False by lia. reflexivity.
Defined.

Lemma sweep_empty_range_2 :
  ShorSweep.sweep steady_Shor steady_run 2 = ([ShorSweep.Header 2], Ok ()).
Proof. apply (sweep_empty_range steady_Shor steady_run 2). lia. Defined.

Lemma labels_line_up_two :
  QSVM.labelled [(0, 1); (1, 2)]%Z [(1, 0); (2, 1)]%Z 2
  = ((λ r, (r, 0%Z)) <$> [(0, 1); (1, 2)]%Z)
    ++ ((λ r, (r, 1%Z)) <$> [(1, 0); (2, 1)]%Z) ∧
  length (QSVM.append_rows [(0, 1); (1, 2)]%Z [(1, 0); (2, 1)]%Z)
  = length (QSVM.labels 2).
Proof.
  apply (labels_line_up [(0, 1); (1, 2)]%Z [(1, 0); (2, 1)]%Z 2); reflexivity.
Defined.

Lemma batching_preserves_estimate_sampling :
  winning_probability (sampling_backend (λ _ _, ideal_equal)) 8192
    default_a0 default_a1 default_b0 default_b1
  = winning_probability_separate (sampling_backend (λ _ _, ideal_equal)) 8192
      default_a0 default_a1 default_b0 default_b1 ∧
  winning_probability (sampling_backend (λ _ _, ideal_equal)) 8192
    default_a0 default_a1 default_b0 default_b1
  = true_div (win_sum ideal_equal ideal_equal ideal_equal ideal_equal) (4 * 8192).
Proof.
  apply (batching_preserves_estimate
           (sampling_backend (λ _ _, ideal_equal)) (λ _ _, Ok ideal_equal) 8192
           default_a0 default_a1 default_b0 default_b1).
  apply (sampling_backend_independent (λ _ _, ideal_equal)).
Defined.

(** C7 fails for a backend that is deterministic and no more: the
    positional backend answers every request as a function of the request,
    yet one batch and four requests give different estimates. *)
Lemma batching_changes_positional_estimate :
  winning_probability positional_backend 1
    default_a0 default_a1 default_b0 default_b1
  ≠ winning_probability_separate positional_backend 1
      default_a0 default_a1 default_b0 default_b1.
Proof. apply positional_backend_separates. Qed.

(** The division on a few quotients, against the values Python prints for
    them: a rounded quotient, a negative one, a tie at 54 digits, the last
    subnormal, a tie below it, and the two sides of the overflow. *)
Lemma true_div_samples :
  map (λ ab : Z * Z, result_value (true_div ab.1 ab.2))
    [(15, 44); (-7, 3); (2 ^ 53 + 1, 1); (2 ^ 53 + 3, 1); (1, 2 ^ 1074);
     (1, 2 ^ 1075); (3, 2 ^ 1075); (2 ^ 1024 - 2 ^ 970 - 1, 1);
     (2 ^ 1024 - 2 ^ 970, 1)]%Z
  = [Some (6141272219141585 # 18014398509481984);
     Some (-5254199565265579 # 2251799813685248);
     Some (inject_Z (2 ^ 53));
     Some (inject_Z (2 ^ 53 + 4));
     Some (1 # Z.to_pos (2 ^ 1074));
     Some 0%Q;
     Some (1 # Z.to_pos (2 ^ 1073));
     Some (inject_Z (2 ^ 1024 - 2 ^ 971));
     None].
Proof. vm_compute. reflexivity. Qed.
